(** * simplescp: the exec/subsystem request handlers of [simplescp.go]

    A shallow embedding of the request-handling code of the scp server:
    the copy-option loop of [handleRequest], the role branches that
    follow it, [sendExitStatusCode], [handleSFTP] and the request
    dispatch of [handleNewChannel].

    Side effects on the ssh channel and on the request ([Reply],
    [Write], [Close], [SendRequest], logging, the calls into the transfer
    engines) are recorded, in program order, as a trace of events.  A Go
    run-time panic (slice or index out of range, an explicit [panic])
    is an outcome of its own: it unwinds the goroutine and, not being
    recovered anywhere in the program, ends the process. *)

From Stdlib Require Import List String Ascii Bool Arith Lia Permutation.
From Stdlib Require Import Strings.Byte NArith.
Import ListNotations.
Local Open Scope string_scope.
Local Open Scope list_scope.

(** ** Data model *)

(** [type scpOptions struct] *)
Record scpOptions : Type := mkScpOptions {
  To           : bool;
  From         : bool;
  TargetIsDir  : bool;
  Recursive    : bool;
  PreserveMode : bool;
  fileNames    : list string
}.

(** [opts := scpOptions{}] followed by [opts.fileNames = make([]string, 0)] *)
Definition zeroOptions : scpOptions :=
  mkScpOptions false false false false false [].

Definition setFrom (o : scpOptions) : scpOptions :=
  mkScpOptions (To o) true (TargetIsDir o) (Recursive o) (PreserveMode o) (fileNames o).
Definition setTo (o : scpOptions) : scpOptions :=
  mkScpOptions true (From o) (TargetIsDir o) (Recursive o) (PreserveMode o) (fileNames o).
Definition setTargetIsDir (o : scpOptions) : scpOptions :=
  mkScpOptions (To o) (From o) true (Recursive o) (PreserveMode o) (fileNames o).
Definition setPreserveMode (o : scpOptions) : scpOptions :=
  mkScpOptions (To o) (From o) (TargetIsDir o) (Recursive o) true (fileNames o).
Definition setRecursive (o : scpOptions) : scpOptions :=
  mkScpOptions (To o) (From o) (TargetIsDir o) true (PreserveMode o) (fileNames o).
(** [opts.fileNames = append(opts.fileNames, elem)] *)
Definition appendFileName (o : scpOptions) (elem : string) : scpOptions :=
  mkScpOptions (To o) (From o) (TargetIsDir o) (Recursive o) (PreserveMode o)
               (fileNames o ++ [elem]).

(** ** The option loop of [handleRequest] (lines 114-142)

    The loop state is the pair of the local [parseOpts] and of [opts].
    One iteration of [for _, elem := range s[1:]] is [optStep]; the body
    is guarded by [if parseOpts] and that [if] has no [else], so an
    iteration entered with [parseOpts = false] leaves the state as it
    is.  The inner [if parseOpts] of the ["--"] case is kept as written. *)
Definition optStep (st : bool * scpOptions) (elem : string) : bool * scpOptions :=
  let (parseOpts, opts) := st in
  if parseOpts then
    if elem =? "-f" then (parseOpts, setFrom opts)
    else if elem =? "-t" then (parseOpts, setTo opts)
    else if elem =? "-d" then (parseOpts, setTargetIsDir opts)
    else if elem =? "-p" then (parseOpts, setPreserveMode opts)
    else if elem =? "-r" then (parseOpts, setRecursive opts)
    else if elem =? "-v" then (parseOpts, opts)
    else if elem =? "--" then
      (if parseOpts then (false, opts)
       else (parseOpts, appendFileName opts elem))
    else (parseOpts, appendFileName opts elem)
  else (parseOpts, opts).

Definition optLoop (st : bool * scpOptions) (args : list string) : bool * scpOptions :=
  fold_left optStep args st.

(** The options record the handler holds after the loop over [s[1:]]. *)
Definition parseOptions (args : list string) : scpOptions :=
  snd (optLoop (true, zeroOptions) args).

(** What the specification asks of the loop, for comparison: after
    ["--"] every token is a file name. *)
Fixpoint specLoop (parseOpts : bool) (opts : scpOptions) (args : list string) : scpOptions :=
  match args with
  | [] => opts
  | elem :: rest =>
      if parseOpts then
        if elem =? "--" then specLoop false opts rest
        else specLoop true (snd (optStep (true, opts) elem)) rest
      else specLoop false (appendFileName opts elem) rest
  end.

Definition specParseOptions (args : list string) : scpOptions :=
  specLoop true zeroOptions args.

(** The five mode flags of an options record. *)
Definition flagsOf (o : scpOptions) : bool * bool * bool * bool * bool :=
  (To o, From o, TargetIsDir o, Recursive o, PreserveMode o).

(** Tokens the loop recognises as flags (["--"] apart). *)
Definition isFlag (elem : string) : bool :=
  (elem =? "-f") || (elem =? "-t") || (elem =? "-d") ||
  (elem =? "-p") || (elem =? "-r") || (elem =? "-v").

(** [mem x l]: the token [x] occurs in [l]. *)
Definition mem (x : string) (l : list string) : bool :=
  existsb (fun elem => elem =? x) l.

(** The tokens of [l] that are not flags, in the order of [l]. *)
Definition nonFlags (l : list string) : list string :=
  filter (fun elem => negb (isFlag elem)) l.

(** ** Effects *)

(** A Go [error] value, as far as the handlers tell errors apart:
    [io.EOF] is compared by identity, any other error only carries its
    message ([err.Error()]). *)
Inductive error : Type :=
| io_EOF
| errorOf (msg : string).

Definition Error_ (e : error) : string :=
  match e with
  | io_EOF => "EOF"
  | errorOf msg => msg
  end.

Inductive logLevel : Type := Debug | Info | ErrorLevel | Fatal.

(** What a handler does to the outside, in program order.  A [Log]
    event keeps the level and the format string of the [Printf]. *)
Inductive event : Type :=
| Log (lvl : logLevel) (format : string)
| Reply (ok : bool) (payload : option string)                  (* req.Reply *)
| ChannelWrite (data : string)                                 (* channel.Write *)
| ChannelClose                                                 (* channel.Close *)
| SendRequest (name : string) (wantReply : bool) (payload : list byte)
| SendErrorToClient (msg : string)                             (* sendErrorToClient(msg, channel) *)
| SCPSource (opts : scpOptions)                                (* config.startSCPSource(channel, opts) *)
| SCPSink (opts : scpOptions)                                  (* config.startSCPSink(channel, opts) *)
| SFTPNewServer                                                (* sftp.NewServer(channel) *)
| SFTPServe                                                    (* server.Serve() *)
| SFTPServerClose                                              (* server.Close(), deferred *)
| Reject (reason : string) (message : string).                 (* newChannel.Reject *)

Inductive result (A : Type) : Type :=
| Done (a : A)
| Panic (msg : string).
Arguments Done {A} a.
Arguments Panic {A} msg.

(** A run: the events emitted so far and how the run ended. *)
Definition Run (A : Type) : Type := (list event * result A)%type.

Definition ret {A : Type} (a : A) : Run A := ([], Done a).

Definition bind {A B : Type} (m : Run A) (k : A -> Run B) : Run B :=
  match m with
  | (tr, Done a) => let (tr', r) := k a in (tr ++ tr', r)
  | (tr, Panic msg) => (tr, Panic msg)
  end.

Definition emit (e : event) : Run unit := ([e], Done tt).
Definition panic {A : Type} (msg : string) : Run A := ([], Panic msg).

Notation "x <- m ;; k" := (bind m (fun x => k))
  (at level 61, m at next level, right associativity).
Notation "m ;; k" := (bind m (fun _ => k))
  (at level 61, right associativity).

Definition trace {A : Type} (r : Run A) : list event := fst r.
Definition panics {A : Type} (r : Run A) : bool :=
  match snd r with Panic _ => true | Done _ => false end.

(** [p[n:]] on a byte string: a run-time panic when [n > len(p)]. *)
Fixpoint dropBytes (n : nat) (p : string) : option string :=
  match n, p with
  | O, _ => Some p
  | S _, EmptyString => None
  | S n', String _ p' => dropBytes n' p'
  end.

Definition sliceFrom (n : nat) (p : string) : Run string :=
  match dropBytes n p with
  | Some rest => ret rest
  | None => panic "slice bounds out of range"
  end.

(** [s[0]] on a slice of strings. *)
Definition index0 (s : list string) : Run string :=
  match s with
  | x :: _ => ret x
  | [] => panic "index out of range [0] with length 0"
  end.

Definition newline : string := String "010"%char EmptyString.

(** What the handlers call but this file does not define: the
    tokenizer of go-shlex, the two transfer engines of the server, the
    channel's [SendRequest] and the sftp server.  Each is taken through
    its result; the call itself is an event of the trace. *)
Record Externals : Type := {
  shlex_Split         : string -> list string * option error;
  startSCPSource      : scpOptions -> option error;
  startSCPSink        : scpOptions -> option error;
  channel_SendRequest : string -> bool -> list byte -> option error;
  sftp_NewServer      : option error;
  server_Serve        : option error
}.

(** A request as it arrives on the channel: [req.Type], [req.Payload]. *)
Record Request : Type := {
  Type_   : string;
  Payload : string
}.

Section Handlers.

Variable ext : Externals.

(** [sendExitStatusCode] (lines 52-60) *)
Definition sendExitStatusCode (status : byte) : Run unit :=
  let exitStatusBuffer := [x00; x00; x00; status] in
  emit (SendRequest "exit-status" false exitStatusBuffer) ;;
  match channel_SendRequest ext "exit-status" false exitStatusBuffer with
  | Some _ => emit (Log ErrorLevel "Failed to forward exit-status to client: %v")
  | None => ret tt
  end.

(** [handleSFTP] (lines 62-80); the deferred [server.Close()] runs when
    the function returns, after [channel.Close()]. *)
Definition handleSFTP : Run unit :=
  emit SFTPNewServer ;;
  match sftp_NewServer ext with
  | Some _ => emit (Log Debug "Failed to start SFTP server: %v")
  | None =>
      emit SFTPServe ;;
      match server_Serve ext with
      | None | Some io_EOF =>
          emit (Log Debug "SFTP server exited cleanly") ;;
          sendExitStatusCode x00
      | Some _ =>
          emit (Log Debug "SFTP server exited with error: %v") ;;
          sendExitStatusCode x01
      end ;;
      emit ChannelClose ;;
      emit SFTPServerClose
  end.

(** The source branch of [handleRequest] (lines 148-158). *)
Definition sourceBranch (opts : scpOptions) : Run unit :=
  if From opts then
    emit (SCPSource opts) ;;
    match startSCPSource ext opts with
    | Some err => emit (Reply false (Some (Error_ err)))
    | None => emit (Reply true None)
    end
  else ret tt.

(** The sink branch of [handleRequest] (lines 160-176).  The value
    [startSCPSink] returns is not looked at; [statusCode] starts at the
    zero value of [uint8]. *)
Definition sinkBranch (opts : scpOptions) : Run unit :=
  if To opts then
    st <- (if negb (List.length (fileNames opts) =? 1)%nat then
             emit (Log ErrorLevel "Error in number of targets (ambiguous target)") ;;
             emit (SendErrorToClient "scp: ambiguous target") ;;
             ret (x01, false)
           else
             emit (SCPSink opts) ;;
             let _ := startSCPSink ext opts in
             ret (x00, true)) ;;
    let (statusCode, ok) := (st : byte * bool) in
    sendExitStatusCode statusCode ;;
    emit ChannelClose ;;
    emit (Reply ok None)
  else ret tt.

(** What [handleRequest] does once [shlex.Split] has returned [(s, err)]
    (lines 87-177). *)
Definition handleTokens (s : list string) (err : option error) : Run unit :=
  match err with
  | Some _ => emit (Log ErrorLevel "Error when splitting payload: %v")
  | None => ret tt
  end ;;
  s0 <- index0 s ;;
  if negb (s0 =? "scp") then
    emit (Reply false (Some "Only scp is supported")) ;;
    emit (ChannelWrite ("Only scp is supported" ++ newline)%string) ;;
    emit ChannelClose
  else
    let opts := parseOptions (tl s) in
    emit (Log Debug "Called scp with %v") ;;
    emit (Log Debug "Options: %v") ;;
    emit (Log Debug "Filenames: %v") ;;
    sourceBranch opts ;;
    sinkBranch opts.

(** [handleRequest] (lines 83-177), on the request's payload. *)
Definition handleRequest (payload : string) : Run unit :=
  cmd <- sliceFrom 4 payload ;;
  emit (Log Debug "Payload before splitting is %v") ;;
  let (s, err) := shlex_Split ext cmd in
  handleTokens s err.

(** One iteration of the request loop of [handleNewChannel]
    (lines 198-222).  An ["exec"] request is handled in a goroutine of
    its own; its events are recorded where it is launched, and a panic
    inside it ends the process as any other does. *)
Definition serveRequest (req : Request) : Run unit :=
  if Type_ req =? "exec" then
    handleRequest (Payload req)
  else if Type_ req =? "shell" then
    emit (ChannelWrite ("Opening a shell is not supported by this server" ++ newline)%string) ;;
    emit (Reply false None)
  else if Type_ req =? "env" then
    emit (Reply true None)
  else if Type_ req =? "subsystem" then
    name <- sliceFrom 4 (Payload req) ;;
    if name =? "sftp" then
      handleSFTP ;;
      emit (Reply true None)
    else
      emit (Reply true None)
  else
    emit (Log Debug "Req type: %v, req payload: %v") ;;
    emit (Reply true None).

Fixpoint serveRequests (reqs : list Request) : Run unit :=
  match reqs with
  | [] => ret tt
  | req :: rest => serveRequest req ;; serveRequests rest
  end.

(** [handleNewChannel] (lines 179-223): [accept] is what
    [newChannel.Accept()] returns, the request stream or an error. *)
Definition handleNewChannel (channelType : string)
    (accept : list Request + error) : Run unit :=
  emit (Log Debug "Channel type is %v") ;;
  if negb (channelType =? "session") then
    emit (Log Debug "Rejecting channel request for type %v") ;;
    emit (Reject "UnknownChannelType" "unknown channel type")
  else
    match accept with
    | inr _ => panic "could not accept channel."
    | inl requests => serveRequests requests
    end.

End Handlers.

(** ** Reading a trace *)

Definition isLog (e : event) : bool :=
  match e with Log _ _ => true | _ => false end.

(** The events other than log lines. *)
Definition effects (tr : list event) : list event :=
  filter (fun e => negb (isLog e)) tr.

Definition isClose (e : event) : bool :=
  match e with ChannelClose => true | _ => false end.
Definition isReply (e : event) : bool :=
  match e with Reply _ _ => true | _ => false end.
Definition isExitStatus (e : event) : bool :=
  match e with SendRequest "exit-status" _ _ => true | _ => false end.
Definition isEngine (e : event) : bool :=
  match e with SCPSource _ | SCPSink _ => true | _ => false end.

Definition count (p : event -> bool) (tr : list event) : nat :=
  List.length (filter p tr).

(** The exit-status request carrying [status]. *)
Definition ExitStatus (status : byte) : event :=
  SendRequest "exit-status" false [x00; x00; x00; status].

(** The status bytes of the exit-status requests of a trace. *)
Fixpoint exitStatuses (tr : list event) : list byte :=
  match tr with
  | [] => []
  | SendRequest "exit-status" _ [_; _; _; status] :: rest => status :: exitStatuses rest
  | _ :: rest => exitStatuses rest
  end.

(** Every [ChannelClose] of the trace has an exit-status request
    somewhere before it. *)
Fixpoint closeAfterExitStatus (sent : bool) (tr : list event) : bool :=
  match tr with
  | [] => true
  | e :: rest =>
      if isClose e then sent && closeAfterExitStatus sent rest
      else closeAfterExitStatus (sent || isExitStatus e) rest
  end.

(** A run that ends normally, with the given effects. *)
Definition runsTo (r : Run unit) (eff : list event) : Prop :=
  snd r = Done tt /\ effects (trace r) = eff.

(** ** A tokenizer for plain command lines

    [fields] splits on spaces and never fails.  On a command line with
    no quote, backslash or comment character this is what shell
    tokenization gives; it serves to run the handlers on such lines. *)
Fixpoint fieldsAux (cur : string) (p : string) : list string :=
  match p with
  | EmptyString => if (cur =? "") then [] else [cur]
  | String c rest =>
      if Ascii.eqb c " "%char
      then (if (cur =? "") then fieldsAux "" rest else cur :: fieldsAux "" rest)
      else fieldsAux (cur ++ String c EmptyString)%string rest
  end.

Definition fields (p : string) : list string * option error :=
  (fieldsAux "" p, None).

(** Externals in which every call succeeds. *)
Definition quietExt : Externals :=
  {| shlex_Split := fields;
     startSCPSource := fun _ => None;
     startSCPSink := fun _ => None;
     channel_SendRequest := fun _ _ _ => None;
     sftp_NewServer := None;
     server_Serve := None |}.

(** Externals in which both transfer engines and the sftp server
    report an error. *)
Definition failingExt : Externals :=
  {| shlex_Split := fields;
     startSCPSource := fun _ => Some (errorOf "no such file");
     startSCPSink := fun _ => Some (errorOf "permission denied");
     channel_SendRequest := fun _ _ _ => None;
     sftp_NewServer := None;
     server_Serve := Some (errorOf "connection lost") |}.

(** The four-byte length prefix in front of a request's string. *)
Definition prefixed (cmd : string) : string :=
  String "000"%char (String "000"%char (String "000"%char
    (String (ascii_of_nat (String.length cmd)) cmd))).

(** ** Connections *)

(** A channel the client asks to open: [newChannel.ChannelType()] and
    what [newChannel.Accept()] returns, the channel's request stream or
    an error. *)
Record NewChannel : Type := {
  ChannelType : string;
  Accept      : list Request + error
}.

(** The loop [for newChannel := range chans] of [handleConn]
    (lines 234-236).  Each channel is handled in a goroutine of its
    own; as for exec requests, its events are recorded where it is
    launched. *)
Fixpoint handleChannels (ext : Externals) (chans : list NewChannel) : Run unit :=
  match chans with
  | [] => ret tt
  | newChannel :: rest =>
      handleNewChannel ext (ChannelType newChannel) (Accept newChannel) ;;
      handleChannels ext rest
  end.

(** [handleConn] (lines 226-238): [handshake] is what
    [ssh.NewServerConn] returns, the stream of new channels or an
    error. *)
Definition handleConn (ext : Externals) (handshake : list NewChannel + error) : Run unit :=
  match handshake with
  | inr _ => emit (Log ErrorLevel "Error during handshake: %v")
  | inl chans =>
      handleChannels ext chans ;;
      emit (Log Debug "Finished handling connection from %q")
  end.

(** ** Reading tokens and payloads *)

(** The tokens in front of the first ["--"]. *)
Fixpoint beforeDashes (args : list string) : list string :=
  match args with
  | [] => []
  | elem :: rest => if elem =? "--" then [] else elem :: beforeDashes rest
  end.

(** [args] without its [-v] tokens. *)
Definition withoutVerbose (args : list string) : list string :=
  filter (fun elem => negb (elem =? "-v")) args.

(** A four-byte payload read as an unsigned 32-bit integer, most
    significant byte first (the wire format of an ssh [uint32]). *)
Definition uint32BE (b : list byte) : option N :=
  match b with
  | [b0; b1; b2; b3] =>
      Some (Byte.to_N b0 * 16777216 + Byte.to_N b1 * 65536 +
            Byte.to_N b2 * 256 + Byte.to_N b3)%N
  | _ => None
  end.

(** The payloads of the exit-status requests of a trace. *)
Fixpoint exitStatusPayloads (tr : list event) : list (list byte) :=
  match tr with
  | [] => []
  | SendRequest "exit-status" _ payload :: rest => payload :: exitStatusPayloads rest
  | _ :: rest => exitStatusPayloads rest
  end.

Definition isSource (e : event) : bool :=
  match e with SCPSource _ => true | _ => false end.
Definition isSink (e : event) : bool :=
  match e with SCPSink _ => true | _ => false end.

(** What the effects of handling one request have in common: at most
    one close, no exit status without a close, statuses 0 or 1 only. *)
Definition wellBehaved (eff : list event) : Prop :=
  count isClose eff <= 1 /\
  count isExitStatus eff <= count isClose eff /\
  List.length (exitStatuses eff) = count isExitStatus eff /\
  Forall (fun status => status = x00 \/ status = x01) (exitStatuses eff).

(** A new channel whose handling panics: a session channel that
    cannot be accepted, or one with a request whose handling panics. *)
Definition channelPanics (ext : Externals) (newChannel : NewChannel) : bool :=
  (ChannelType newChannel =? "session") &&
  match Accept newChannel with
  | inr _ => true
  | inl requests => existsb (fun req => panics (serveRequest ext req)) requests
  end.

(** * Properties *)

(** ** The option loop *)

Lemma optLoop_stopped (args : list string) (opts : scpOptions) :
  optLoop (false, opts) args = (false, opts).
Proof.
  induction args as [|elem rest IH]; [reflexivity|].
  exact IH.
Qed.

Lemma optLoop_app (st : bool * scpOptions) (l1 l2 : list string) :
  optLoop st (l1 ++ l2) = optLoop (optLoop st l1) l2.
Proof. apply fold_left_app. Qed.

Lemma mem_app (x : string) (l1 l2 : list string) :
  mem x (l1 ++ l2) = mem x l1 || mem x l2.
Proof. apply existsb_app. Qed.

Ltac token_cases elem :=
  repeat match goal with
         | |- context [elem =? ?k] =>
             let E := fresh "E" in
             destruct (elem =? k) eqn:E;
             [apply String.eqb_eq in E; subst elem; simpl in *; try discriminate|]
         end.

(** Without ["--"] the loop runs to the end with [parseOpts] still set;
    every flag that occurs is switched on and the other tokens are
    appended in order. *)
Lemma optLoop_no_dashes (args : list string) :
  forall opts, mem "--" args = false ->
    optLoop (true, opts) args =
    (true,
     mkScpOptions (To opts || mem "-t" args) (From opts || mem "-f" args)
                  (TargetIsDir opts || mem "-d" args)
                  (Recursive opts || mem "-r" args)
                  (PreserveMode opts || mem "-p" args)
                  (fileNames opts ++ nonFlags args)).
Proof.
  induction args as [|elem rest IH]; intros [t f d r p fn] Hd.
  - simpl. now rewrite !orb_false_r, app_nil_r.
  - simpl in Hd. apply orb_false_elim in Hd as [Helem Hd].
    change (optLoop (true, mkScpOptions t f d r p fn) (elem :: rest))
      with (optLoop (optStep (true, mkScpOptions t f d r p fn) elem) rest).
    unfold optStep, nonFlags, isFlag, mem; simpl.
    token_cases elem; rewrite IH by exact Hd; simpl;
      unfold nonFlags, mem;
      rewrite ?orb_true_r, ?orb_false_r, <- ?app_assoc; try reflexivity.
    all: rewrite ?Helem in *; try discriminate.
Qed.

Lemma parseOptions_no_dashes (args : list string) :
  mem "--" args = false ->
  parseOptions args =
  mkScpOptions (mem "-t" args) (mem "-f" args) (mem "-d" args)
               (mem "-r" args) (mem "-p" args) (nonFlags args).
Proof.
  intros Hd. unfold parseOptions. now rewrite optLoop_no_dashes.
Qed.

(** The first ["--"] ends the loop's work: what follows it is skipped. *)
Lemma parseOptions_after_dashes (pre post : list string) :
  mem "--" pre = false ->
  parseOptions (pre ++ "--" :: post) = parseOptions pre.
Proof.
  intros Hd. unfold parseOptions.
  rewrite optLoop_app, optLoop_no_dashes by exact Hd.
  change (optLoop ?st ("--" :: post)) with (optLoop (optStep st "--") post).
  simpl. now rewrite optLoop_stopped.
Qed.

Lemma mem_Permutation (x : string) (l l' : list string) :
  Permutation l l' -> mem x l = mem x l'.
Proof.
  induction 1 as [|y l l' _ IH|y z l|l l' l'' _ IH1 _ IH2]; simpl.
  - reflexivity.
  - now rewrite IH.
  - now rewrite !orb_assoc, (orb_comm (z =? x)).
  - now rewrite IH1.
Qed.

Lemma nonFlags_Permutation (l l' : list string) :
  Permutation l l' -> Permutation (nonFlags l) (nonFlags l').
Proof.
  unfold nonFlags.
  induction 1 as [|y l l' _ IH|y z l|l l' l'' _ IH1 _ IH2]; simpl.
  - constructor.
  - destruct (negb (isFlag y)); [now constructor | exact IH].
  - destruct (negb (isFlag y)), (negb (isFlag z));
      try apply Permutation_refl. apply perm_swap.
  - now transitivity (filter (fun elem => negb (isFlag elem)) l').
Qed.

Lemma nonFlags_app (l1 l2 : list string) :
  nonFlags (l1 ++ l2) = nonFlags l1 ++ nonFlags l2.
Proof. apply filter_app. Qed.

Lemma nonFlags_flag (f : string) (l : list string) :
  isFlag f = true -> nonFlags (f :: l) = nonFlags l.
Proof. intros Hf. unfold nonFlags. simpl. now rewrite Hf. Qed.

Lemma mem_repeated (x f : string) (l1 l2 l3 : list string) :
  mem x (l1 ++ f :: l2 ++ f :: l3) = mem x (l1 ++ f :: l2 ++ l3).
Proof.
  rewrite !mem_app. simpl. rewrite !mem_app. simpl.
  destruct (f =? x), (mem x l1), (mem x l2), (mem x l3); reflexivity.
Qed.

Lemma specLoop_stopped (post : list string) :
  forall opts,
    specLoop false opts post =
    mkScpOptions (To opts) (From opts) (TargetIsDir opts) (Recursive opts)
                 (PreserveMode opts) (fileNames opts ++ post).
Proof.
  induction post as [|elem rest IH]; intros [t f d r p fn]; simpl.
  - now rewrite app_nil_r.
  - rewrite IH. simpl. now rewrite <- app_assoc.
Qed.

Lemma optStep_keeps_parsing (opts : scpOptions) (elem : string) :
  (elem =? "--") = false ->
  optStep (true, opts) elem = (true, snd (optStep (true, opts) elem)).
Proof.
  intros Helem. unfold optStep. rewrite Helem.
  repeat match goal with |- context [if ?c then _ else _] => destruct c end;
    reflexivity.
Qed.

Lemma specLoop_before_dashes (pre post : list string) :
  forall opts, mem "--" pre = false ->
    specLoop true opts (pre ++ post) =
    specLoop true (snd (optLoop (true, opts) pre)) post.
Proof.
  induction pre as [|elem rest IH]; intros opts Hd; [reflexivity|].
  simpl in Hd. apply orb_false_elim in Hd as [Helem Hd].
  change (optLoop (true, opts) (elem :: rest))
    with (optLoop (optStep (true, opts) elem) rest).
  rewrite (optStep_keeps_parsing opts elem Helem).
  rewrite <- IH by exact Hd.
  cbn [app specLoop]. now rewrite Helem.
Qed.

(** On token lists without ["--"] the loop does what the
    specification describes. *)
Lemma specParseOptions_no_dashes (args : list string) :
  mem "--" args = false -> specParseOptions args = parseOptions args.
Proof.
  intros Hd. unfold specParseOptions, parseOptions.
  rewrite <- (app_nil_r args) at 1.
  now rewrite specLoop_before_dashes.
Qed.

(** With a ["--"], the specification keeps the tokens behind it as
    file names. *)
Lemma specParseOptions_after_dashes (pre post : list string) :
  mem "--" pre = false ->
  fileNames (specParseOptions (pre ++ "--" :: post)) =
  fileNames (parseOptions pre) ++ post.
Proof.
  intros Hd. unfold specParseOptions, parseOptions.
  rewrite specLoop_before_dashes by exact Hd.
  simpl. now rewrite specLoop_stopped.
Qed.

(** C1.  Once ["--"] has been seen, flag interpretation stops and the
    tokens behind it are to become file names.  The loop of
    [handleRequest] stops interpreting flags but appends nothing any
    more: on [scp -t -- file] (and on [scp -t -- -x]) the list of file
    names stays empty, where the specification's loop yields [file]
    (and [-x]). *)
Theorem parseOptions_drops_tokens_after_dashes :
  fileNames (parseOptions ["-t"; "--"; "file"]) = [] /\
  fileNames (specParseOptions ["-t"; "--"; "file"]) = ["file"] /\
  fileNames (parseOptions ["-t"; "--"; "-x"]) = [] /\
  fileNames (specParseOptions ["-t"; "--"; "-x"]) = ["-x"] /\
  To (parseOptions ["-t"; "--"; "file"]) = true.
Proof. repeat split. Qed.

(** C9.  On a token list without ["--"], the five flags of the parsed
    options are exactly the flags that occur among the tokens, they are
    the same for every permutation of the tokens (the file names are
    then the same up to order), and a token list in which a flag occurs
    twice gives the same options record as the list with the second
    occurrence removed. *)
Theorem parseOptions_flags_order_independent (ts ts' : list string) :
  mem "--" ts = false ->
  Permutation ts ts' ->
  flagsOf (parseOptions ts) =
    (mem "-t" ts, mem "-f" ts, mem "-d" ts, mem "-r" ts, mem "-p" ts) /\
  flagsOf (parseOptions ts') = flagsOf (parseOptions ts) /\
  Permutation (fileNames (parseOptions ts')) (fileNames (parseOptions ts)) /\
  (forall f l1 l2 l3,
      isFlag f = true ->
      ts = l1 ++ f :: l2 ++ f :: l3 ->
      parseOptions ts = parseOptions (l1 ++ f :: l2 ++ l3)).
Proof.
  intros Hd Hperm.
  assert (Hd' : mem "--" ts' = false)
    by now rewrite <- (mem_Permutation "--" ts ts' Hperm).
  rewrite (parseOptions_no_dashes ts Hd), (parseOptions_no_dashes ts' Hd').
  unfold flagsOf; simpl.
  repeat split.
  - now rewrite !(mem_Permutation _ ts ts' Hperm).
  - apply Permutation_sym. now apply nonFlags_Permutation.
  - intros f l1 l2 l3 Hf ->.
    assert (Hd2 : mem "--" (l1 ++ f :: l2 ++ l3) = false)
      by now rewrite <- mem_repeated.
    rewrite (parseOptions_no_dashes _ Hd2), !mem_repeated.
    f_equal.
    rewrite !nonFlags_app, !(nonFlags_flag f) by exact Hf.
    now rewrite !nonFlags_app, !(nonFlags_flag f) by exact Hf.
Qed.

Lemma parseOptions_flags_order_independent_witness :
  flagsOf (parseOptions ["dir"; "-r"; "-p"; "-r"; "-t"]) =
    flagsOf (parseOptions ["-t"; "dir"; "-r"; "-p"; "-r"]) /\
  flagsOf (parseOptions ["-t"; "dir"; "-r"; "-p"; "-r"]) =
    (true, false, false, true, true) /\
  parseOptions ["-t"; "dir"; "-r"; "-p"; "-r"] =
    parseOptions ["-t"; "dir"; "-r"; "-p"].
Proof.
  pose proof (parseOptions_flags_order_independent
                ["-t"; "dir"; "-r"; "-p"; "-r"]
                ["dir"; "-r"; "-p"; "-r"; "-t"]
                eq_refl
                (Permutation_cons_append ["dir"; "-r"; "-p"; "-r"] "-t"))
    as (Hflags & Hperm & _ & Hrep).
  split; [exact Hperm|].
  split; [exact Hflags|].
  exact (Hrep "-r" ["-t"; "dir"] ["-p"] [] eq_refl eq_refl).
Defined.

(** ** Runs of the handlers *)

Lemma effects_app (tr1 tr2 : list event) :
  effects (tr1 ++ tr2) = effects tr1 ++ effects tr2.
Proof. apply filter_app. Qed.

Lemma bind_Done {A B : Type} (m : Run A) (k : A -> Run B) (tr : list event) (a : A) :
  m = (tr, Done a) -> bind m k = (tr ++ trace (k a), snd (k a)).
Proof. intros ->. unfold bind, trace. now destruct (k a). Qed.

Lemma bind_Panic {A B : Type} (m : Run A) (k : A -> Run B) (tr : list event) (msg : string) :
  m = (tr, Panic msg) -> bind m k = (tr, Panic msg).
Proof. now intros ->. Qed.

Lemma runsTo_bind (m k : Run unit) (e1 e2 : list event) :
  runsTo m e1 -> runsTo k e2 -> runsTo (m ;; k) (e1 ++ e2).
Proof.
  intros [Hm1 Hm2] [Hk1 Hk2].
  destruct m as [tr r]; simpl in Hm1; subst r.
  rewrite (bind_Done _ _ tr tt eq_refl). split; [exact Hk1|].
  unfold trace in *; simpl in *. now rewrite effects_app, Hm2, Hk2.
Qed.

Lemma runsTo_bind_val {A : Type} (m : Run A) (k : A -> Run unit)
    (tr : list event) (a : A) (e2 : list event) :
  m = (tr, Done a) -> runsTo (k a) e2 -> runsTo (bind m k) (effects tr ++ e2).
Proof.
  intros Hm [Hk1 Hk2]. rewrite (bind_Done _ _ tr a Hm).
  split; [exact Hk1|].
  unfold trace at 1; simpl fst. now rewrite effects_app, Hk2.
Qed.

Lemma runsTo_emit (e : event) :
  runsTo (emit e) (if isLog e then [] else [e]).
Proof. split; [reflexivity|]. unfold effects, trace; simpl. now destruct (isLog e). Qed.

Lemma runsTo_ret : runsTo (ret tt) [].
Proof. now split. Qed.

Section HandlerRuns.

Variable ext : Externals.

Lemma sendExitStatusCode_runs (status : byte) :
  runsTo (sendExitStatusCode ext status) [ExitStatus status].
Proof.
  unfold sendExitStatusCode.
  apply (runsTo_bind _ _ [ExitStatus status] []); [apply runsTo_emit|].
  destruct (channel_SendRequest ext _ _ _); [apply runsTo_emit | apply runsTo_ret].
Qed.

(** The effects of the source branch. *)
Lemma sourceBranch_runs (opts : scpOptions) :
  runsTo (sourceBranch ext opts)
    (if From opts then
       [SCPSource opts;
        match startSCPSource ext opts with
        | Some err => Reply false (Some (Error_ err))
        | None => Reply true None
        end]
     else []).
Proof.
  unfold sourceBranch. destruct (From opts); [|apply runsTo_ret].
  apply (runsTo_bind _ _ [SCPSource opts] [_]); [apply runsTo_emit|].
  destruct (startSCPSource ext opts); apply runsTo_emit.
Qed.

(** The effects of the sink branch. *)
Lemma sinkBranch_runs (opts : scpOptions) :
  runsTo (sinkBranch ext opts)
    (if To opts then
       if (List.length (fileNames opts) =? 1)%nat then
         [SCPSink opts; ExitStatus x00; ChannelClose; Reply true None]
       else
         [SendErrorToClient "scp: ambiguous target"; ExitStatus x01;
          ChannelClose; Reply false None]
     else []).
Proof.
  unfold sinkBranch. destruct (To opts); [|apply runsTo_ret].
  destruct (List.length (fileNames opts) =? 1)%nat; simpl negb; cbv iota.
  - apply (runsTo_bind_val _ _ [SCPSink opts] (x00, true)); [reflexivity|].
    apply (runsTo_bind _ _ [ExitStatus x00] [ChannelClose; Reply true None]);
      [apply sendExitStatusCode_runs|].
    apply (runsTo_bind _ _ [ChannelClose] [Reply true None]); apply runsTo_emit.
  - apply (runsTo_bind_val _ _
             [Log ErrorLevel "Error in number of targets (ambiguous target)";
              SendErrorToClient "scp: ambiguous target"] (x01, false));
      [reflexivity|].
    apply (runsTo_bind _ _ [ExitStatus x01] [ChannelClose; Reply false None]);
      [apply sendExitStatusCode_runs|].
    apply (runsTo_bind _ _ [ChannelClose] [Reply false None]); apply runsTo_emit.
Qed.

Lemma handleRequest_tokens (payload cmd : string) (s : list string) (err : option error) :
  dropBytes 4 payload = Some cmd ->
  shlex_Split ext cmd = (s, err) ->
  handleRequest ext payload =
  (emit (Log Debug "Payload before splitting is %v") ;; handleTokens ext s err).
Proof.
  intros Hp Hs. unfold handleRequest, sliceFrom. rewrite Hp.
  unfold ret at 1. unfold bind at 1. rewrite Hs.
  now destruct (_ ;; _).
Qed.

Lemma splitLog_runs (err : option error) :
  runsTo (match err with
          | Some _ => emit (Log ErrorLevel "Error when splitting payload: %v")
          | None => ret tt
          end) [].
Proof. destruct err; [apply runsTo_emit | apply runsTo_ret]. Qed.

(** A command line whose first token is [scp]: the handler runs the
    source branch, then the sink branch, and returns. *)
Lemma handleRequest_scp (payload cmd : string) (rest : list string) (err : option error) :
  dropBytes 4 payload = Some cmd ->
  shlex_Split ext cmd = ("scp" :: rest, err) ->
  runsTo (handleRequest ext payload)
    (effects (trace (sourceBranch ext (parseOptions rest))) ++
     effects (trace (sinkBranch ext (parseOptions rest)))).
Proof.
  intros Hp Hs. rewrite (handleRequest_tokens _ _ _ _ Hp Hs).
  apply (runsTo_bind _ _ [] _); [apply runsTo_emit|].
  unfold handleTokens.
  apply (runsTo_bind _ _ [] _); [apply splitLog_runs|].
  unfold index0, ret at 1. unfold bind at 1. simpl negb. cbv iota.
  match goal with |- runsTo (let (tr', r) := ?m in _) _ =>
    assert (H : runsTo m
      (effects (trace (sourceBranch ext (parseOptions rest))) ++
       effects (trace (sinkBranch ext (parseOptions rest)))));
    [| destruct m; exact H]
  end.
  apply (runsTo_bind _ _ [] _); [apply runsTo_emit|].
  apply (runsTo_bind _ _ [] _); [apply runsTo_emit|].
  apply (runsTo_bind _ _ [] _); [apply runsTo_emit|].
  pose proof (sourceBranch_runs (parseOptions rest)) as [Hs1 Hs2].
  pose proof (sinkBranch_runs (parseOptions rest)) as [Hk1 Hk2].
  apply runsTo_bind; split; auto.
Qed.

(** A command line whose first token is not [scp]. *)
Lemma handleRequest_other (payload cmd s0 : string) (rest : list string) (err : option error) :
  dropBytes 4 payload = Some cmd ->
  shlex_Split ext cmd = (s0 :: rest, err) ->
  s0 <> "scp" ->
  runsTo (handleRequest ext payload)
    [Reply false (Some "Only scp is supported");
     ChannelWrite ("Only scp is supported" ++ newline)%string;
     ChannelClose].
Proof.
  intros Hp Hs Hne. rewrite (handleRequest_tokens _ _ _ _ Hp Hs).
  apply (runsTo_bind _ _ [] _); [apply runsTo_emit|].
  unfold handleTokens.
  apply (runsTo_bind _ _ [] _); [apply splitLog_runs|].
  unfold index0, ret at 1. unfold bind at 1.
  apply String.eqb_neq in Hne. rewrite Hne. simpl negb. cbv iota.
  now split.
Qed.

(** No token at all: [s[0]] is out of range. *)
Lemma handleRequest_no_token (payload cmd : string) (err : option error) :
  dropBytes 4 payload = Some cmd ->
  shlex_Split ext cmd = ([], err) ->
  panics (handleRequest ext payload) = true /\
  effects (trace (handleRequest ext payload)) = [].
Proof.
  intros Hp Hs. rewrite (handleRequest_tokens _ _ _ _ Hp Hs).
  unfold handleTokens. destruct err; now split.
Qed.

End HandlerRuns.

Section RequestRuns.

Variable ext : Externals.

(** The status byte [handleSFTP] sends for what [server.Serve()]
    returned. *)
Lemma handleSFTP_runs :
  runsTo (handleSFTP ext)
    (match sftp_NewServer ext with
     | Some _ => [SFTPNewServer]
     | None =>
         [SFTPNewServer; SFTPServe;
          ExitStatus (match server_Serve ext with
                      | None | Some io_EOF => x00
                      | Some (errorOf _) => x01
                      end);
          ChannelClose; SFTPServerClose]
     end).
Proof.
  unfold handleSFTP.
  destruct (sftp_NewServer ext).
  { apply (runsTo_bind _ _ [SFTPNewServer] []); apply runsTo_emit. }
  apply (runsTo_bind _ _ [SFTPNewServer] [_; _; _; _]); [apply runsTo_emit|].
  apply (runsTo_bind _ _ [SFTPServe] [_; ChannelClose; SFTPServerClose]);
    [apply runsTo_emit|].
  apply (runsTo_bind _ _ [_] [ChannelClose; SFTPServerClose]).
  - destruct (server_Serve ext) as [[|msg]|];
      (apply (runsTo_bind _ _ [] [_]);
       [apply runsTo_emit | apply sendExitStatusCode_runs]).
  - apply (runsTo_bind _ _ [ChannelClose] [SFTPServerClose]); apply runsTo_emit.
Qed.

Lemma serveRequest_subsystem (req : Request) (name : string) :
  Type_ req = "subsystem" ->
  dropBytes 4 (Payload req) = Some name ->
  serveRequest ext req =
  if name =? "sftp" then handleSFTP ext ;; emit (Reply true None)
  else emit (Reply true None).
Proof.
  intros Ht Hp. unfold serveRequest, sliceFrom. rewrite Ht, Hp. simpl.
  unfold ret. unfold bind at 1.
  now destruct (if name =? "sftp" then _ else _).
Qed.

(** The effects of an exec request for [scp], spelled out. *)
Lemma handleRequest_scp_effects (payload cmd : string) (rest : list string)
    (err : option error) :
  dropBytes 4 payload = Some cmd ->
  shlex_Split ext cmd = ("scp" :: rest, err) ->
  let opts := parseOptions rest in
  runsTo (handleRequest ext payload)
    ((if From opts then
        [SCPSource opts;
         match startSCPSource ext opts with
         | Some e => Reply false (Some (Error_ e))
         | None => Reply true None
         end]
      else []) ++
     (if To opts then
        if (List.length (fileNames opts) =? 1)%nat then
          [SCPSink opts; ExitStatus x00; ChannelClose; Reply true None]
        else
          [SendErrorToClient "scp: ambiguous target"; ExitStatus x01;
           ChannelClose; Reply false None]
      else [])).
Proof.
  intros Hp Hs opts.
  pose proof (handleRequest_scp ext _ _ _ _ Hp Hs) as H.
  destruct (sourceBranch_runs ext opts) as [_ Hsrc].
  destruct (sinkBranch_runs ext opts) as [_ Hsnk].
  fold opts in H. now rewrite Hsrc, Hsnk in H.
Qed.

(** A tokenization error changes nothing but the log: the handler goes
    on with the tokens it was given. *)
Lemma split_error_only_logged (s : list string) (e : error) :
  handleTokens ext s (Some e) =
  (emit (Log ErrorLevel "Error when splitting payload: %v") ;;
   handleTokens ext s None).
Proof.
  unfold handleTokens at 1 2.
  unfold emit at 1 2, ret at 1. unfold bind at 1 3 4.
  destruct (_ <- index0 s ;; _) as [tr r]. reflexivity.
Qed.

End RequestRuns.

(** ** Exec requests *)

(** C6.  An exec request whose first token is not [scp] is rejected on
    the spot: the handler replies failure to the request, writes
    "Only scp is supported" to the channel and closes the channel; no
    transfer engine runs and nothing else is done. *)
Theorem non_scp_command_rejected (ext : Externals) (payload cmd s0 : string)
    (rest : list string) (err : option error) :
  dropBytes 4 payload = Some cmd ->
  shlex_Split ext cmd = (s0 :: rest, err) ->
  s0 <> "scp" ->
  snd (handleRequest ext payload) = Done tt /\
  effects (trace (handleRequest ext payload)) =
    [Reply false (Some "Only scp is supported");
     ChannelWrite ("Only scp is supported" ++ newline)%string;
     ChannelClose] /\
  count isEngine (effects (trace (handleRequest ext payload))) = 0.
Proof.
  intros Hp Hs Hne.
  destruct (handleRequest_other ext _ _ _ _ _ Hp Hs Hne) as [Hdone Heff].
  rewrite Heff. now repeat split.
Qed.

Lemma non_scp_command_rejected_witness :
  snd (handleRequest quietExt (prefixed "ls -l")) = Done tt /\
  effects (trace (handleRequest quietExt (prefixed "ls -l"))) =
    [Reply false (Some "Only scp is supported");
     ChannelWrite ("Only scp is supported" ++ newline)%string;
     ChannelClose] /\
  count isEngine (effects (trace (handleRequest quietExt (prefixed "ls -l")))) = 0.
Proof.
  apply (non_scp_command_rejected quietExt (prefixed "ls -l") "ls -l" "ls" ["-l"] None).
  - reflexivity.
  - reflexivity.
  - discriminate.
Defined.

(** C7.  An exec request for [scp] whose options set neither From
    ([-f]) nor To ([-t]) falls through both role branches: the handler
    returns normally having run no transfer, sent no reply, sent no
    exit status and left the channel open. *)
Theorem neither_role_falls_through (ext : Externals) (payload cmd : string)
    (rest : list string) (err : option error) :
  dropBytes 4 payload = Some cmd ->
  shlex_Split ext cmd = ("scp" :: rest, err) ->
  From (parseOptions rest) = false ->
  To (parseOptions rest) = false ->
  snd (handleRequest ext payload) = Done tt /\
  effects (trace (handleRequest ext payload)) = [].
Proof.
  intros Hp Hs Hfrom Hto.
  destruct (handleRequest_scp_effects ext _ _ _ _ Hp Hs) as [Hdone Heff].
  rewrite Hfrom, Hto in Heff. now split.
Qed.

Lemma neither_role_falls_through_witness :
  snd (handleRequest failingExt (prefixed "scp -r -p dir")) = Done tt /\
  effects (trace (handleRequest failingExt (prefixed "scp -r -p dir"))) = [].
Proof.
  apply (neither_role_falls_through failingExt (prefixed "scp -r -p dir")
           "scp -r -p dir" ["-r"; "-p"; "dir"] None); reflexivity.
Defined.

(** C10.  An exec request for [scp] whose options set both From and To
    runs the source branch and then the sink branch as well; each
    branch replies to the request, two replies in all. *)
Theorem both_roles_source_then_sink (ext : Externals) (payload cmd : string)
    (rest : list string) (err : option error) :
  dropBytes 4 payload = Some cmd ->
  shlex_Split ext cmd = ("scp" :: rest, err) ->
  From (parseOptions rest) = true ->
  To (parseOptions rest) = true ->
  let opts := parseOptions rest in
  snd (handleRequest ext payload) = Done tt /\
  effects (trace (handleRequest ext payload)) =
    [SCPSource opts;
     match startSCPSource ext opts with
     | Some e => Reply false (Some (Error_ e))
     | None => Reply true None
     end] ++
    (if (List.length (fileNames opts) =? 1)%nat then
       [SCPSink opts; ExitStatus x00; ChannelClose; Reply true None]
     else
       [SendErrorToClient "scp: ambiguous target"; ExitStatus x01;
        ChannelClose; Reply false None]) /\
  count isReply (effects (trace (handleRequest ext payload))) = 2.
Proof.
  intros Hp Hs Hfrom Hto opts.
  destruct (handleRequest_scp_effects ext _ _ _ _ Hp Hs) as [Hdone Heff].
  fold opts in Heff, Hfrom, Hto. rewrite Hfrom, Hto in Heff.
  rewrite Heff. repeat split; [exact Hdone|].
  destruct (startSCPSource ext opts), (List.length (fileNames opts) =? 1)%nat;
    reflexivity.
Qed.

Lemma both_roles_source_then_sink_witness :
  effects (trace (handleRequest failingExt (prefixed "scp -f -t file"))) =
    [SCPSource (mkScpOptions true true false false false ["file"]);
     Reply false (Some "no such file");
     SCPSink (mkScpOptions true true false false false ["file"]);
     ExitStatus x00; ChannelClose; Reply true None] /\
  count isReply
    (effects (trace (handleRequest failingExt (prefixed "scp -f -t file")))) = 2.
Proof.
  pose proof (both_roles_source_then_sink failingExt (prefixed "scp -f -t file")
                "scp -f -t file" ["-f"; "-t"; "file"] None
                eq_refl eq_refl eq_refl eq_refl) as (_ & Heff & Hcount).
  split; [exact Heff | exact Hcount].
Defined.




(** Whatever the sink engine returns, a sink run with one file name is
    followed by exit status 0: [startSCPSink]'s result is dropped and
    [statusCode] is never assigned on that path. *)
Lemma sink_exit_status_ignores_engine (ext : Externals) (payload cmd : string)
    (rest : list string) (err : option error) :
  dropBytes 4 payload = Some cmd ->
  shlex_Split ext cmd = ("scp" :: rest, err) ->
  To (parseOptions rest) = true ->
  List.length (fileNames (parseOptions rest)) = 1 ->
  exitStatuses (effects (trace (handleRequest ext payload))) = [x00].
Proof.
  intros Hp Hs Hto Hlen.
  destruct (handleRequest_scp_effects ext _ _ _ _ Hp Hs) as [_ Heff].
  apply Nat.eqb_eq in Hlen. rewrite Hto, Hlen in Heff. rewrite Heff.
  destruct (From (parseOptions rest)); [|reflexivity].
  destruct (startSCPSource ext (parseOptions rest)); reflexivity.
Qed.

(** C2.  The exit status is to be 0 exactly when the engine reports
    clean completion, so a failed sink run must give a non-zero status.
    On [scp -t file], with a sink engine that returns an error, the
    handler still sends exit status 0 (and replies success). *)
Theorem failed_sink_exit_status_zero :
  startSCPSink failingExt (mkScpOptions true false false false false ["file"]) =
    Some (errorOf "permission denied") /\
  effects (trace (handleRequest failingExt (prefixed "scp -t file"))) =
    [SCPSink (mkScpOptions true false false false false ["file"]);
     ExitStatus x00; ChannelClose; Reply true None] /\
  exitStatuses (effects (trace (handleRequest failingExt (prefixed "scp -t file")))) =
    [x00].
Proof. repeat split. Qed.

(** C4.  Handling an exec request must not bring the process down, also
    when no token was recovered.  On a payload that holds only the
    length prefix (an empty command line) the token list is empty and
    [s[0]] panics in the handler's goroutine; the same happens when the
    command line is blank. *)
Theorem empty_command_panics :
  handleRequest quietExt (prefixed "") =
    ([Log Debug "Payload before splitting is %v"],
     Panic "index out of range [0] with length 0") /\
  panics (handleRequest quietExt (prefixed "   ")) = true /\
  panics (serveRequest quietExt {| Type_ := "exec"; Payload := prefixed "" |}) = true.
Proof. repeat split. Qed.

(** A payload shorter than its length prefix panics as well, in
    [req.Payload[4:]]. *)
Lemma short_payload_panics (ext : Externals) (payload : string) :
  String.length payload < 4 ->
  handleRequest ext payload = ([], Panic "slice bounds out of range").
Proof.
  intros Hlen. unfold handleRequest, sliceFrom.
  destruct payload as [|a [|b [|c [|d p]]]]; simpl in Hlen; try lia; reflexivity.
Qed.

(** A failed [newChannel.Accept()] panics. *)
Lemma accept_failure_panics (ext : Externals) (e : error) :
  handleNewChannel ext "session" (inr e) =
    ([Log Debug "Channel type is %v"], Panic "could not accept channel.").
Proof. reflexivity. Qed.

(** C5, as the code has it.  The handler closes the channel at most
    once.  When To is set it closes the channel once, after the exit
    status has been sent.  A command other than [scp] gets the channel
    closed once with no exit status sent at all.  With To unset (source
    only, or neither role) the handler itself sends no exit status and
    does not close the channel. *)
Theorem channel_close_discipline (ext : Externals) (payload cmd s0 : string)
    (rest : list string) (err : option error) :
  dropBytes 4 payload = Some cmd ->
  shlex_Split ext cmd = (s0 :: rest, err) ->
  let eff := effects (trace (handleRequest ext payload)) in
  let opts := parseOptions rest in
  count isClose eff <= 1 /\
  (s0 <> "scp" -> count isClose eff = 1 /\ count isExitStatus eff = 0) /\
  (s0 = "scp" -> To opts = true ->
     count isClose eff = 1 /\ count isExitStatus eff = 1 /\
     closeAfterExitStatus false eff = true) /\
  (s0 = "scp" -> To opts = false ->
     count isClose eff = 0 /\ count isExitStatus eff = 0).
Proof.
  intros Hp Hs eff opts.
  destruct (String.eqb_spec s0 "scp") as [->|Hne].
  - destruct (handleRequest_scp_effects ext _ _ _ _ Hp Hs) as [_ Heff].
    fold opts in Heff. fold eff in Heff. rewrite Heff. unfold count.
    split; [|split; [|split]].
    + destruct (From opts), (To opts), (startSCPSource ext opts),
        (List.length (fileNames opts) =? 1)%nat; simpl; lia.
    + intros Hne; now elim Hne.
    + intros _ Hto. rewrite Hto.
      destruct (From opts), (startSCPSource ext opts),
        (List.length (fileNames opts) =? 1)%nat; repeat split.
    + intros _ Hto. rewrite Hto.
      destruct (From opts), (startSCPSource ext opts); repeat split.
  - destruct (handleRequest_other ext _ _ _ _ _ Hp Hs Hne) as [_ Heff].
    fold eff in Heff. rewrite Heff. unfold count.
    split; [|split; [|split]].
    + simpl; lia.
    + intros _. now split.
    + intros Heq; now elim Hne.
    + intros Heq; now elim Hne.
Qed.

Lemma channel_close_discipline_witness :
  (count isClose (effects (trace (handleRequest quietExt (prefixed "scp -t file")))) = 1 /\
   count isExitStatus (effects (trace (handleRequest quietExt (prefixed "scp -t file")))) = 1 /\
   closeAfterExitStatus false
     (effects (trace (handleRequest quietExt (prefixed "scp -t file")))) = true) /\
  (count isClose (effects (trace (handleRequest quietExt (prefixed "ls")))) = 1 /\
   count isExitStatus (effects (trace (handleRequest quietExt (prefixed "ls")))) = 0).
Proof.
  split.
  - refine (proj1 (proj2 (proj2 (channel_close_discipline quietExt
             (prefixed "scp -t file") "scp -t file" "scp" ["-t"; "file"] None
             eq_refl eq_refl))) eq_refl eq_refl).
  - refine (proj1 (proj2 (channel_close_discipline quietExt
             (prefixed "ls") "ls" "ls" [] None eq_refl eq_refl)) _).
    discriminate.
Defined.

(** C5 as stated fails twice.  On [ls] the channel is closed although
    no exit status was ever sent on it.  On [scp -f file] the handler
    returns without closing the channel and without sending an exit
    status. *)
Lemma close_without_exit_status :
  effects (trace (handleRequest quietExt (prefixed "ls"))) =
    [Reply false (Some "Only scp is supported");
     ChannelWrite ("Only scp is supported" ++ newline)%string;
     ChannelClose] /\
  closeAfterExitStatus false
    (effects (trace (handleRequest quietExt (prefixed "ls")))) = false /\
  effects (trace (handleRequest quietExt (prefixed "scp -f file"))) =
    [SCPSource (mkScpOptions false true false false false ["file"]);
     Reply true None] /\
  count isClose
    (effects (trace (handleRequest quietExt (prefixed "scp -f file")))) = 0.
Proof. repeat split. Qed.

(** ** Subsystem requests *)

(** C8.  A subsystem request for [sftp] hands the channel to the sftp
    server; when the server has been served to its end the handler
    sends exit status 0 if [Serve] returned no error or [io.EOF] and 1
    for any other error, closes the channel, and the request is
    acknowledged.  (If the server cannot be created nothing is sent but
    the acknowledgement.)  A subsystem request for any other name is
    acknowledged and nothing else is done. *)
Theorem subsystem_request_served (ext : Externals) (req : Request) (name : string) :
  Type_ req = "subsystem" ->
  dropBytes 4 (Payload req) = Some name ->
  let eff := effects (trace (serveRequest ext req)) in
  snd (serveRequest ext req) = Done tt /\
  (name = "sftp" -> sftp_NewServer ext = None ->
     eff = [SFTPNewServer; SFTPServe;
            ExitStatus (match server_Serve ext with
                        | None | Some io_EOF => x00
                        | Some (errorOf _) => x01
                        end);
            ChannelClose; SFTPServerClose; Reply true None]) /\
  (name = "sftp" -> sftp_NewServer ext <> None ->
     eff = [SFTPNewServer; Reply true None]) /\
  (name <> "sftp" -> eff = [Reply true None]).
Proof.
  intros Ht Hp eff. subst eff.
  rewrite (serveRequest_subsystem ext req name Ht Hp).
  destruct (String.eqb_spec name "sftp") as [->|Hne].
  - pose proof (runsTo_bind _ _ _ _ (handleSFTP_runs ext)
                  (runsTo_emit (Reply true None))) as [Hdone Heff].
    rewrite Heff. split; [exact Hdone|].
    destruct (sftp_NewServer ext); repeat split; intros; congruence.
  - repeat split; intros; congruence.
Qed.

Lemma subsystem_request_served_witness :
  effects (trace (serveRequest failingExt
                    {| Type_ := "subsystem"; Payload := prefixed "sftp" |})) =
    [SFTPNewServer; SFTPServe; ExitStatus x01; ChannelClose; SFTPServerClose;
     Reply true None] /\
  effects (trace (serveRequest quietExt
                    {| Type_ := "subsystem"; Payload := prefixed "sftp" |})) =
    [SFTPNewServer; SFTPServe; ExitStatus x00; ChannelClose; SFTPServerClose;
     Reply true None] /\
  effects (trace (serveRequest quietExt
                    {| Type_ := "subsystem"; Payload := prefixed "netconf" |})) =
    [Reply true None].
Proof.
  split; [|split].
  - exact (proj1 (proj2 (subsystem_request_served failingExt
             {| Type_ := "subsystem"; Payload := prefixed "sftp" |} "sftp"
             eq_refl eq_refl)) eq_refl eq_refl).
  - exact (proj1 (proj2 (subsystem_request_served quietExt
             {| Type_ := "subsystem"; Payload := prefixed "sftp" |} "sftp"
             eq_refl eq_refl)) eq_refl eq_refl).
  - refine (proj2 (proj2 (proj2 (subsystem_request_served quietExt
             {| Type_ := "subsystem"; Payload := prefixed "netconf" |} "netconf"
             eq_refl eq_refl))) _).
    discriminate.
Defined.

(** * Further properties of the code *)

(** ** The option loop on arbitrary token lists *)

Lemma beforeDashes_no_dashes (args : list string) :
  mem "--" (beforeDashes args) = false.
Proof.
  induction args as [|elem rest IH]; [reflexivity|].
  simpl. destruct (elem =? "--") eqn:E; [reflexivity|].
  simpl. now rewrite E.
Qed.

Lemma beforeDashes_split (args : list string) :
  args = beforeDashes args \/
  exists post, args = beforeDashes args ++ "--" :: post.
Proof.
  induction args as [|elem rest IH]; [now left|].
  simpl. destruct (String.eqb_spec elem "--") as [->|Hne].
  - right. now exists rest.
  - destruct IH as [IH|[post IH]].
    + left. now rewrite <- IH.
    + right. exists post. simpl. now rewrite <- IH.
Qed.

Lemma beforeDashes_id (args : list string) :
  mem "--" args = false -> beforeDashes args = args.
Proof.
  induction args as [|elem rest IH]; [reflexivity|].
  simpl. intros H. apply orb_false_elim in H as [-> H]. now rewrite IH.
Qed.

Lemma beforeDashes_app (l1 l2 : list string) :
  beforeDashes (l1 ++ l2) =
  if mem "--" l1 then beforeDashes l1 else l1 ++ beforeDashes l2.
Proof.
  induction l1 as [|elem rest IH]; [reflexivity|].
  simpl. destruct (elem =? "--"); [reflexivity|].
  simpl. rewrite IH. now destruct (mem "--" rest).
Qed.

Lemma parseOptions_beforeDashes (args : list string) :
  parseOptions args = parseOptions (beforeDashes args).
Proof.
  destruct (beforeDashes_split args) as [H|[post H]].
  - now rewrite <- H.
  - rewrite H at 1. apply parseOptions_after_dashes, beforeDashes_no_dashes.
Qed.

Lemma parseOptions_prefix (args : list string) :
  parseOptions args =
  mkScpOptions (mem "-t" (beforeDashes args)) (mem "-f" (beforeDashes args))
               (mem "-d" (beforeDashes args)) (mem "-r" (beforeDashes args))
               (mem "-p" (beforeDashes args)) (nonFlags (beforeDashes args)).
Proof.
  rewrite parseOptions_beforeDashes.
  apply parseOptions_no_dashes, beforeDashes_no_dashes.
Qed.

(** X1.  On every token list the loop reads the tokens in front of the
    first ["--"] and nothing else: each flag of the options is set
    exactly when its token occurs there, and the file names are the
    tokens there that are not flags, in their order. *)
Theorem parseOptions_reads_up_to_dashes (args : list string) :
  parseOptions args =
  mkScpOptions (mem "-t" (beforeDashes args)) (mem "-f" (beforeDashes args))
               (mem "-d" (beforeDashes args)) (mem "-r" (beforeDashes args))
               (mem "-p" (beforeDashes args)) (nonFlags (beforeDashes args)).
Proof.
  rewrite parseOptions_beforeDashes.
  apply parseOptions_no_dashes, beforeDashes_no_dashes.
Qed.

Lemma In_beforeDashes (x : string) (args : list string) :
  In x (beforeDashes args) -> In x args /\ x <> "--".
Proof.
  induction args as [|elem rest IH]; [intros []|].
  simpl. destruct (String.eqb_spec elem "--") as [->|Hne]; [intros []|].
  intros [<-|H]; [now split; [left|]|].
  destruct (IH H) as [Hin Hx]. split; [now right | exact Hx].
Qed.

(** X2.  Every file name of the parsed options is one of the tokens,
    is none of the flags [-f -t -d -p -r -v], and is never ["--"]. *)
Theorem fileNames_are_plain_tokens (args : list string) :
  Forall (fun name => In name args /\ isFlag name = false /\ name <> "--")
         (fileNames (parseOptions args)).
Proof.
  rewrite parseOptions_prefix. simpl.
  apply Forall_forall. intros name Hin.
  unfold nonFlags in Hin. apply filter_In in Hin as [Hin Hflag].
  apply In_beforeDashes in Hin as [Hin Hne].
  repeat split; [exact Hin | | exact Hne].
  now apply negb_true_iff in Hflag.
Qed.

(** X3.  Parsing composes over concatenation as long as the first part
    holds no ["--"]: the flags of [l1 ++ l2] are the flags of [l1] or
    of [l2], and the file names are those of [l1] followed by those of
    [l2]. *)
Theorem parseOptions_app (l1 l2 : list string) :
  mem "--" l1 = false ->
  To (parseOptions (l1 ++ l2)) = To (parseOptions l1) || To (parseOptions l2) /\
  From (parseOptions (l1 ++ l2)) = From (parseOptions l1) || From (parseOptions l2) /\
  TargetIsDir (parseOptions (l1 ++ l2)) =
    TargetIsDir (parseOptions l1) || TargetIsDir (parseOptions l2) /\
  Recursive (parseOptions (l1 ++ l2)) =
    Recursive (parseOptions l1) || Recursive (parseOptions l2) /\
  PreserveMode (parseOptions (l1 ++ l2)) =
    PreserveMode (parseOptions l1) || PreserveMode (parseOptions l2) /\
  fileNames (parseOptions (l1 ++ l2)) =
    fileNames (parseOptions l1) ++ fileNames (parseOptions l2).
Proof.
  intros Hd.
  rewrite !parseOptions_prefix, beforeDashes_app, Hd,
    (beforeDashes_id l1 Hd).
  simpl. rewrite !mem_app, nonFlags_app. repeat split.
Qed.

Lemma parseOptions_app_witness :
  fileNames (parseOptions (["-t"; "a"] ++ ["-r"; "--"; "b"])) =
    fileNames (parseOptions ["-t"; "a"]) ++ fileNames (parseOptions ["-r"; "--"; "b"]) /\
  Recursive (parseOptions (["-t"; "a"] ++ ["-r"; "--"; "b"])) =
    Recursive (parseOptions ["-t"; "a"]) || Recursive (parseOptions ["-r"; "--"; "b"]).
Proof.
  pose proof (parseOptions_app ["-t"; "a"] ["-r"; "--"; "b"] eq_refl)
    as (_ & _ & _ & Hr & _ & Hf).
  split; [exact Hf | exact Hr].
Defined.

(** X4.  Whatever is appended to a token list that already holds a
    ["--"] changes nothing in the parsed options. *)
Theorem parseOptions_app_after_dashes (l1 l2 : list string) :
  mem "--" l1 = true ->
  parseOptions (l1 ++ l2) = parseOptions l1.
Proof.
  intros Hd.
  rewrite (parseOptions_beforeDashes (l1 ++ l2)), beforeDashes_app, Hd.
  symmetry. apply parseOptions_beforeDashes.
Qed.

Lemma parseOptions_app_after_dashes_witness :
  parseOptions (["-f"; "--"; "x"] ++ ["-t"; "-r"; "y"]) = parseOptions ["-f"; "--"; "x"].
Proof.
  apply (parseOptions_app_after_dashes ["-f"; "--"; "x"] ["-t"; "-r"; "y"]).
  reflexivity.
Defined.

Lemma beforeDashes_withoutVerbose (args : list string) :
  beforeDashes (withoutVerbose args) = withoutVerbose (beforeDashes args).
Proof.
  unfold withoutVerbose.
  induction args as [|elem rest IH]; [reflexivity|].
  simpl. destruct (String.eqb_spec elem "-v") as [->|Hv]; simpl.
  - exact IH.
  - destruct (elem =? "--"); [reflexivity|].
    simpl. apply String.eqb_neq in Hv. now rewrite Hv, IH.
Qed.

Lemma mem_withoutVerbose (x : string) (l : list string) :
  x <> "-v" -> mem x (withoutVerbose l) = mem x l.
Proof.
  intros Hx. unfold withoutVerbose, mem.
  induction l as [|elem rest IH]; [reflexivity|].
  cbn [filter]. destruct (String.eqb_spec elem "-v") as [->|Hv]; cbn [negb existsb].
  - rewrite IH. replace ("-v" =? x) with false; [reflexivity|].
    symmetry. apply String.eqb_neq. congruence.
  - now rewrite IH.
Qed.

Lemma nonFlags_withoutVerbose (l : list string) :
  nonFlags (withoutVerbose l) = nonFlags l.
Proof.
  unfold withoutVerbose, nonFlags.
  induction l as [|elem rest IH]; [reflexivity|].
  simpl. destruct (String.eqb_spec elem "-v") as [->|Hv]; simpl.
  - exact IH.
  - now rewrite IH.
Qed.

(** X5.  The [-v] flag has no effect at all: removing every [-v] token
    from a token list leaves the parsed options unchanged. *)
Theorem parseOptions_ignores_verbose (args : list string) :
  parseOptions (withoutVerbose args) = parseOptions args.
Proof.
  rewrite !parseOptions_prefix, beforeDashes_withoutVerbose.
  rewrite !mem_withoutVerbose by discriminate.
  now rewrite nonFlags_withoutVerbose.
Qed.

(** ** [sendExitStatusCode] *)

(** X6.  [sendExitStatusCode] sends one ["exit-status"] request that
    asks for no reply; its payload is four bytes long and, read as a
    big-endian unsigned 32-bit integer, is the status.  A failing
    [SendRequest] is only logged: the function returns normally with
    the same effects. *)
Theorem exit_status_payload (ext : Externals) (status : byte) :
  snd (sendExitStatusCode ext status) = Done tt /\
  effects (trace (sendExitStatusCode ext status)) =
    [SendRequest "exit-status" false [x00; x00; x00; status]] /\
  map uint32BE (exitStatusPayloads (trace (sendExitStatusCode ext status))) =
    [Some (Byte.to_N status)].
Proof.
  destruct (sendExitStatusCode_runs ext status) as [Hdone Heff].
  split; [exact Hdone|]. split; [exact Heff|].
  unfold sendExitStatusCode, bind, emit, ret, trace.
  destruct (channel_SendRequest ext _ _ _); reflexivity.
Qed.

(** ** Exec requests: panics, tokenization errors, replies *)

Lemma dropBytes_None (n : nat) (p : string) :
  dropBytes n p = None <-> String.length p < n.
Proof.
  revert p. induction n as [|n IH]; intros p; simpl.
  - split; [discriminate | lia].
  - destruct p as [|c p]; simpl.
    + split; [lia | reflexivity].
    + rewrite IH. lia.
Qed.

Lemma panics_runsTo (r : Run unit) (eff : list event) :
  runsTo r eff -> panics r = false.
Proof. intros [H _]. unfold panics. now rewrite H. Qed.

(** X7.  [handleRequest] panics exactly when the payload is shorter
    than its four-byte length prefix or the tokenizer returns no token;
    on every other payload it returns normally, whatever the engines
    and the channel do. *)
Theorem handleRequest_panics_iff (ext : Externals) (payload : string) :
  panics (handleRequest ext payload) = true <->
  String.length payload < 4 \/
  exists cmd, dropBytes 4 payload = Some cmd /\ fst (shlex_Split ext cmd) = [].
Proof.
  destruct (dropBytes 4 payload) as [cmd|] eqn:Hp.
  - destruct (shlex_Split ext cmd) as [s err] eqn:Hs.
    assert (Hlen : ~ String.length payload < 4).
    { intros H. apply dropBytes_None in H. congruence. }
    destruct s as [|s0 rest].
    + destruct (handleRequest_no_token ext _ _ _ Hp Hs) as [Hpanic _].
      split; [|intros _; exact Hpanic].
      intros _. right. exists cmd. now rewrite Hs.
    + assert (Hok : panics (handleRequest ext payload) = false).
      { destruct (String.eqb_spec s0 "scp") as [->|Hne].
        - exact (panics_runsTo _ _ (handleRequest_scp ext _ _ _ _ Hp Hs)).
        - exact (panics_runsTo _ _ (handleRequest_other ext _ _ _ _ _ Hp Hs Hne)). }
      rewrite Hok. split; [discriminate|].
      intros [H|(cmd' & Hcmd & Hnil)]; [contradiction|].
      injection Hcmd as <-. rewrite Hs in Hnil. discriminate.
  - split.
    + intros _. left. now apply dropBytes_None.
    + intros _. unfold handleRequest, sliceFrom. now rewrite Hp.
Qed.

(** X8.  An error of the tokenizer changes nothing but the log: with
    the same tokens the handler ends the same way and has the same
    effects, one ["Error when splitting payload"] line being added in
    front of the trace. *)
Theorem split_error_changes_only_log (ext : Externals) (s : list string) (e : error) :
  snd (handleTokens ext s (Some e)) = snd (handleTokens ext s None) /\
  effects (trace (handleTokens ext s (Some e))) =
    effects (trace (handleTokens ext s None)) /\
  trace (handleTokens ext s (Some e)) =
    Log ErrorLevel "Error when splitting payload: %v" ::
    trace (handleTokens ext s None).
Proof.
  rewrite split_error_only_logged.
  unfold emit, bind, trace. destruct (handleTokens ext s None) as [tr r].
  repeat split.
Qed.

Section ExecReplies.

Variable ext : Externals.
Variables payload cmd : string.
Variable rest : list string.
Variable err : option error.
Hypothesis Hpayload : dropBytes 4 payload = Some cmd.
Hypothesis Htokens : shlex_Split ext cmd = ("scp" :: rest, err).

Let opts := parseOptions rest.
Let eff := effects (trace (handleRequest ext payload)).

Lemma scp_effects :
  eff =
  (if From opts then
     [SCPSource opts;
      match startSCPSource ext opts with
      | Some e => Reply false (Some (Error_ e))
      | None => Reply true None
      end]
   else []) ++
  (if To opts then
     if (List.length (fileNames opts) =? 1)%nat then
       [SCPSink opts; ExitStatus x00; ChannelClose; Reply true None]
     else
       [SendErrorToClient "scp: ambiguous target"; ExitStatus x01;
        ChannelClose; Reply false None]
   else []).
Proof. exact (proj2 (handleRequest_scp_effects ext _ _ _ _ Hpayload Htokens)). Qed.

(** X9.  An exec request for [scp] is replied to once for each role
    flag that is set: not at all with neither, once with exactly one of
    [-f] and [-t], twice with both. *)
Theorem exec_reply_count :
  count isReply eff = Nat.b2n (From opts) + Nat.b2n (To opts).
Proof.
  rewrite scp_effects. unfold count.
  destruct (From opts), (To opts), (startSCPSource ext opts),
    (List.length (fileNames opts) =? 1)%nat; reflexivity.
Qed.

(** X10.  The exit status of an exec request for [scp] is fixed by
    the parsed options alone: none is sent without [-t]; with [-t] it
    is 0 when there is exactly one file name and 1 otherwise. *)
Theorem exec_exit_status :
  exitStatuses eff =
  if To opts then
    [if (List.length (fileNames opts) =? 1)%nat then x00 else x01]
  else [].
Proof.
  rewrite scp_effects.
  destruct (From opts), (To opts), (startSCPSource ext opts),
    (List.length (fileNames opts) =? 1)%nat; reflexivity.
Qed.

(** X11.  The engines run at most once each and on the parsed options
    as they are: the source engine exactly when From is set, the sink
    engine exactly when To is set with one file name, the source engine
    first. *)
Theorem exec_engine_runs :
  filter isEngine eff =
  (if From opts then [SCPSource opts] else []) ++
  (if To opts && (List.length (fileNames opts) =? 1)%nat
   then [SCPSink opts] else []).
Proof.
  rewrite scp_effects.
  destruct (From opts), (To opts), (startSCPSource ext opts),
    (List.length (fileNames opts) =? 1)%nat; reflexivity.
Qed.

(** X12.  A source-only request ([-f] without [-t]) runs the source
    engine and replies with its outcome: success when the engine
    returned no error, failure carrying the error's text otherwise.
    The handler sends no exit status and does not close the channel. *)
Theorem source_only_reply :
  From opts = true ->
  To opts = false ->
  eff = [SCPSource opts;
         match startSCPSource ext opts with
         | Some e => Reply false (Some (Error_ e))
         | None => Reply true None
         end].
Proof.
  intros Hfrom Hto. rewrite scp_effects, Hfrom, Hto. reflexivity.
Qed.

End ExecReplies.

Lemma exec_reply_count_witness :
  count isReply (effects (trace (handleRequest quietExt (prefixed "scp -t file")))) = 1 /\
  count isReply (effects (trace (handleRequest quietExt (prefixed "scp -r dir")))) = 0.
Proof.
  split.
  - exact (exec_reply_count quietExt (prefixed "scp -t file") "scp -t file"
             ["-t"; "file"] None eq_refl eq_refl).
  - exact (exec_reply_count quietExt (prefixed "scp -r dir") "scp -r dir"
             ["-r"; "dir"] None eq_refl eq_refl).
Defined.

Lemma exec_exit_status_witness :
  exitStatuses (effects (trace (handleRequest failingExt (prefixed "scp -t a b")))) = [x01] /\
  exitStatuses (effects (trace (handleRequest failingExt (prefixed "scp -f a")))) = [].
Proof.
  split.
  - exact (exec_exit_status failingExt (prefixed "scp -t a b") "scp -t a b"
             ["-t"; "a"; "b"] None eq_refl eq_refl).
  - exact (exec_exit_status failingExt (prefixed "scp -f a") "scp -f a"
             ["-f"; "a"] None eq_refl eq_refl).
Defined.

Lemma exec_engine_runs_witness :
  filter isEngine (effects (trace (handleRequest quietExt (prefixed "scp -t -r dir")))) =
    [SCPSink (mkScpOptions true false false true false ["dir"])] /\
  filter isEngine (effects (trace (handleRequest quietExt (prefixed "scp -t a b")))) = [].
Proof.
  split.
  - exact (exec_engine_runs quietExt (prefixed "scp -t -r dir") "scp -t -r dir"
             ["-t"; "-r"; "dir"] None eq_refl eq_refl).
  - exact (exec_engine_runs quietExt (prefixed "scp -t a b") "scp -t a b"
             ["-t"; "a"; "b"] None eq_refl eq_refl).
Defined.

Lemma source_only_reply_witness :
  effects (trace (handleRequest failingExt (prefixed "scp -f missing"))) =
    [SCPSource (mkScpOptions false true false false false ["missing"]);
     Reply false (Some "no such file")].
Proof.
  exact (source_only_reply failingExt (prefixed "scp -f missing") "scp -f missing"
           ["-f"; "missing"] None eq_refl eq_refl eq_refl eq_refl).
Defined.

(** ** The request loop of [handleNewChannel] *)

Lemma panics_bind (m k : Run unit) :
  panics (m ;; k) = panics m || panics k.
Proof.
  destruct m as [tr [[]|msg]]; [|reflexivity].
  unfold bind, panics. now destruct k as [tr' [[]|msg']].
Qed.

Lemma effects_bind_Done (m k : Run unit) :
  snd m = Done tt ->
  effects (trace (m ;; k)) = effects (trace m) ++ effects (trace k).
Proof.
  destruct m as [tr r]; simpl; intros ->.
  unfold bind, trace. destruct k as [tr' r']. simpl. apply effects_app.
Qed.

Lemma snd_bind_Done (m k : Run unit) :
  snd m = Done tt -> snd (m ;; k) = snd k.
Proof.
  destruct m as [tr r]; simpl; intros ->.
  unfold bind. now destruct k.
Qed.

Lemma serveRequest_plain (ext : Externals) (req : Request) :
  Type_ req <> "exec" ->
  Type_ req <> "subsystem" ->
  runsTo (serveRequest ext req)
    (if Type_ req =? "shell" then
       [ChannelWrite ("Opening a shell is not supported by this server" ++ newline)%string;
        Reply false None]
     else [Reply true None]).
Proof.
  intros He Hs. apply String.eqb_neq in He, Hs.
  unfold serveRequest. rewrite He, Hs.
  destruct (Type_ req =? "shell"); [now split|].
  destruct (Type_ req =? "env"); now split.
Qed.

(** X13.  A request that is neither ["exec"] nor ["subsystem"] is
    answered at once and touches nothing else: ["shell"] gets the "not
    supported" message on the channel and a failure reply, every other
    type (["env"] included) a success reply.  The channel stays open. *)
Theorem plain_request_answered (ext : Externals) (req : Request) :
  Type_ req <> "exec" ->
  Type_ req <> "subsystem" ->
  snd (serveRequest ext req) = Done tt /\
  effects (trace (serveRequest ext req)) =
    if Type_ req =? "shell" then
      [ChannelWrite ("Opening a shell is not supported by this server" ++ newline)%string;
       Reply false None]
    else [Reply true None].
Proof.
  intros He Hs. apply String.eqb_neq in He, Hs.
  unfold serveRequest. rewrite He, Hs.
  destruct (Type_ req =? "shell"); [now split|].
  destruct (Type_ req =? "env"); now split.
Qed.

Lemma plain_request_answered_witness :
  effects (trace (serveRequest quietExt {| Type_ := "shell"; Payload := "" |})) =
    [ChannelWrite ("Opening a shell is not supported by this server" ++ newline)%string;
     Reply false None] /\
  effects (trace (serveRequest quietExt {| Type_ := "pty-req"; Payload := "" |})) =
    [Reply true None].
Proof.
  split.
  - refine (proj2 (plain_request_answered quietExt
                     {| Type_ := "shell"; Payload := "" |} _ _)); discriminate.
  - refine (proj2 (plain_request_answered quietExt
                     {| Type_ := "pty-req"; Payload := "" |} _ _)); discriminate.
Defined.

Lemma serveRequest_exec (ext : Externals) (req : Request) :
  Type_ req = "exec" -> serveRequest ext req = handleRequest ext (Payload req).
Proof. intros H. unfold serveRequest. now rewrite H. Qed.

Lemma serveRequest_subsystem_runs (ext : Externals) (req : Request) (name : string) :
  Type_ req = "subsystem" ->
  dropBytes 4 (Payload req) = Some name ->
  snd (serveRequest ext req) = Done tt.
Proof.
  intros Ht Hp. rewrite (serveRequest_subsystem ext req name Ht Hp).
  destruct (name =? "sftp"); [|reflexivity].
  rewrite snd_bind_Done; [reflexivity|]. apply handleSFTP_runs.
Qed.

(** X14.  Serving a request panics in two cases only: an ["exec"]
    request on which [handleRequest] panics, and a ["subsystem"]
    request whose payload is shorter than its four-byte length
    prefix. *)
Theorem serveRequest_panics_iff (ext : Externals) (req : Request) :
  panics (serveRequest ext req) = true <->
  (Type_ req = "exec" /\ panics (handleRequest ext (Payload req)) = true) \/
  (Type_ req = "subsystem" /\ String.length (Payload req) < 4).
Proof.
  destruct (String.eqb_spec (Type_ req) "exec") as [He|He].
  - rewrite (serveRequest_exec ext req He). split.
    + intros H. now left.
    + intros [[_ H]|[H _]]; [exact H|]. rewrite He in H. discriminate.
  - destruct (String.eqb_spec (Type_ req) "subsystem") as [Hs|Hs].
    + destruct (dropBytes 4 (Payload req)) as [name|] eqn:Hp.
      * unfold panics. rewrite (serveRequest_subsystem_runs ext req name Hs Hp).
        split; [discriminate|].
        intros [[H _]|[_ H]]; [contradiction|].
        apply dropBytes_None in H. congruence.
      * split.
        -- intros _. right. split; [exact Hs | now apply dropBytes_None].
        -- intros _. unfold serveRequest, sliceFrom.
           apply String.eqb_neq in He. now rewrite He, Hs, Hp.
    + unfold panics. rewrite (proj1 (serveRequest_plain ext req He Hs)).
      split; [discriminate|]. now intros [[H _]|[H _]].
Qed.

Lemma handleRequest_wellBehaved (ext : Externals) (payload : string) :
  wellBehaved (effects (trace (handleRequest ext payload))).
Proof.
  unfold wellBehaved, count.
  destruct (dropBytes 4 payload) as [cmd|] eqn:Hp.
  - destruct (shlex_Split ext cmd) as [[|s0 rest] err] eqn:Hs.
    + rewrite (proj2 (handleRequest_no_token ext _ _ _ Hp Hs)).
      simpl. repeat split; auto.
    + destruct (String.eqb_spec s0 "scp") as [->|Hne].
      * rewrite (proj2 (handleRequest_scp_effects ext _ _ _ _ Hp Hs)).
        destruct (From (parseOptions rest)), (To (parseOptions rest)),
          (startSCPSource ext (parseOptions rest)),
          (List.length (fileNames (parseOptions rest)) =? 1)%nat;
          simpl; repeat split; auto.
      * rewrite (proj2 (handleRequest_other ext _ _ _ _ _ Hp Hs Hne)).
        simpl. repeat split; auto.
  - unfold handleRequest, sliceFrom. rewrite Hp. simpl. repeat split; auto.
Qed.

Lemma serveRequest_wellBehaved (ext : Externals) (req : Request) :
  wellBehaved (effects (trace (serveRequest ext req))).
Proof.
  destruct (String.eqb_spec (Type_ req) "exec") as [He|He].
  { rewrite (serveRequest_exec ext req He). apply handleRequest_wellBehaved. }
  destruct (String.eqb_spec (Type_ req) "subsystem") as [Hs|Hs].
  - destruct (dropBytes 4 (Payload req)) as [name|] eqn:Hp.
    + rewrite (serveRequest_subsystem ext req name Hs Hp).
      destruct (name =? "sftp").
      * rewrite (proj2 (runsTo_bind _ _ _ _ (handleSFTP_runs ext)
                          (runsTo_emit (Reply true None)))).
        unfold wellBehaved, count.
        destruct (sftp_NewServer ext); [simpl; repeat split; auto|].
        destruct (server_Serve ext) as [[|msg]|]; simpl; repeat split; auto.
      * unfold wellBehaved, count. simpl. repeat split; auto.
    + unfold serveRequest, sliceFrom. apply String.eqb_neq in He.
      rewrite He, Hs, Hp. unfold wellBehaved, count. simpl. repeat split; auto.
  - rewrite (proj2 (serveRequest_plain ext req He Hs)).
    unfold wellBehaved, count.
    destruct (Type_ req =? "shell"); simpl; repeat split; auto.
Qed.


(** X16.  The exit status a request is answered with, if any, is 0 or
    1: no other status byte is ever sent. *)
Theorem request_exit_status_zero_or_one (ext : Externals) (req : Request) :
  exitStatuses (effects (trace (serveRequest ext req))) = [] \/
  exitStatuses (effects (trace (serveRequest ext req))) = [x00] \/
  exitStatuses (effects (trace (serveRequest ext req))) = [x01].
Proof.
  destruct (serveRequest_wellBehaved ext req) as (Hclose & Hexit & Hlen & Hall).
  destruct (exitStatuses (effects (trace (serveRequest ext req))))
    as [|status [|status' l]].
  - now left.
  - right. inversion Hall as [|? ? [->| ->] _]; [now left | now right].
  - simpl in Hlen. lia.
Qed.

Lemma count_app (p : event -> bool) (l1 l2 : list event) :
  count p (l1 ++ l2) = count p l1 + count p l2.
Proof. unfold count. now rewrite filter_app, length_app. Qed.

Lemma serveRequest_one_reply (ext : Externals) (req : Request) :
  Type_ req <> "exec" ->
  (Type_ req = "subsystem" -> 4 <= String.length (Payload req)) ->
  snd (serveRequest ext req) = Done tt /\
  count isReply (effects (trace (serveRequest ext req))) = 1.
Proof.
  intros He Hlen.
  destruct (String.eqb_spec (Type_ req) "subsystem") as [Hs|Hs].
  - destruct (dropBytes 4 (Payload req)) as [name|] eqn:Hp.
    + split; [exact (serveRequest_subsystem_runs ext req name Hs Hp)|].
      rewrite (serveRequest_subsystem ext req name Hs Hp).
      destruct (name =? "sftp"); [|reflexivity].
      rewrite (proj2 (runsTo_bind _ _ _ _ (handleSFTP_runs ext)
                        (runsTo_emit (Reply true None)))).
      destruct (sftp_NewServer ext); reflexivity.
    + apply dropBytes_None in Hp. specialize (Hlen Hs). lia.
  - destruct (serveRequest_plain ext req He Hs) as [Hdone Heff].
    split; [exact Hdone|]. rewrite Heff.
    destruct (Type_ req =? "shell"); reflexivity.
Qed.

(** X17.  On a channel that carries no exec request (and whose
    subsystem requests have a full length prefix) the request loop
    runs to the end of the stream and replies exactly once to every
    request. *)
Theorem serveRequests_reply_each (ext : Externals) (reqs : list Request) :
  Forall (fun req => Type_ req <> "exec" /\
                     (Type_ req = "subsystem" -> 4 <= String.length (Payload req)))
         reqs ->
  snd (serveRequests ext reqs) = Done tt /\
  count isReply (effects (trace (serveRequests ext reqs))) = List.length reqs.
Proof.
  induction 1 as [|req rest [He Hlen] _ [IHdone IHcount]]; [now split|].
  destruct (serveRequest_one_reply ext req He Hlen) as [Hdone Hone].
  cbn [serveRequests List.length].
  rewrite (snd_bind_Done _ _ Hdone), (effects_bind_Done _ _ Hdone), count_app.
  split; [exact IHdone|]. now rewrite Hone, IHcount.
Qed.

Lemma serveRequests_reply_each_witness :
  count isReply
    (effects (trace (serveRequests failingExt
       [ {| Type_ := "env"; Payload := "" |};
         {| Type_ := "subsystem"; Payload := prefixed "sftp" |};
         {| Type_ := "shell"; Payload := "" |} ]))) = 3.
Proof.
  refine (proj2 (serveRequests_reply_each failingExt _ _)).
  repeat constructor; try discriminate; simpl; lia.
Defined.

(** ** Channels and connections *)

Lemma serveRequests_panics (ext : Externals) (reqs : list Request) :
  panics (serveRequests ext reqs) =
  existsb (fun req => panics (serveRequest ext req)) reqs.
Proof.
  induction reqs as [|req rest IH]; [reflexivity|].
  cbn [serveRequests existsb]. now rewrite panics_bind, IH.
Qed.

Lemma handleNewChannel_panics (ext : Externals) (newChannel : NewChannel) :
  panics (handleNewChannel ext (ChannelType newChannel) (Accept newChannel)) =
  channelPanics ext newChannel.
Proof.
  unfold handleNewChannel, channelPanics. rewrite panics_bind. simpl.
  destruct (ChannelType newChannel =? "session"); [|reflexivity]. simpl.
  destruct (Accept newChannel) as [requests|e]; [|reflexivity].
  apply serveRequests_panics.
Qed.

(** X18.  Handling a connection never panics on a failed handshake.
    After a successful handshake it panics exactly when one of the
    connection's channels is a session channel that cannot be accepted
    or that carries a request whose handling panics; channels of other
    types never make it panic. *)
Theorem handleConn_panics (ext : Externals) (handshake : list NewChannel + error) :
  panics (handleConn ext handshake) =
  match handshake with
  | inr _ => false
  | inl chans => existsb (channelPanics ext) chans
  end.
Proof.
  destruct handshake as [chans|e]; [|reflexivity].
  unfold handleConn. rewrite panics_bind, orb_false_r.
  induction chans as [|newChannel rest IH]; [reflexivity|].
  cbn [handleChannels existsb].
  now rewrite panics_bind, handleNewChannel_panics, IH.
Qed.

(** X19.  A connection on which no channel is of type ["session"]
    gets each channel rejected as "unknown channel type" and nothing
    else: no channel is accepted, no request is served, and the
    handling returns normally. *)
Theorem handleConn_rejects_other_channels (ext : Externals) (chans : list NewChannel) :
  Forall (fun newChannel => ChannelType newChannel <> "session") chans ->
  snd (handleConn ext (inl chans)) = Done tt /\
  effects (trace (handleConn ext (inl chans))) =
    map (fun _ => Reject "UnknownChannelType" "unknown channel type") chans.
Proof.
  intros Hall. unfold handleConn.
  assert (H : runsTo (handleChannels ext chans)
                (map (fun _ => Reject "UnknownChannelType" "unknown channel type") chans)).
  { induction Hall as [|newChannel rest Hne _ IH]; [apply runsTo_ret|].
    cbn [handleChannels map].
    apply (runsTo_bind _ _ [Reject "UnknownChannelType" "unknown channel type"] _);
      [|exact IH].
    unfold handleNewChannel. apply String.eqb_neq in Hne. rewrite Hne.
    now split. }
  pose proof (runsTo_bind _ _ _ _ H
                (runsTo_emit (Log Debug "Finished handling connection from %q")))
    as [Hdone Heff].
  split; [exact Hdone|]. rewrite Heff. apply app_nil_r.
Qed.

Lemma handleConn_rejects_other_channels_witness :
  effects (trace (handleConn quietExt
    (inl [ {| ChannelType := "direct-tcpip"; Accept := inr (errorOf "refused") |};
           {| ChannelType := "x11"; Accept := inl [] |} ]))) =
    [Reject "UnknownChannelType" "unknown channel type";
     Reject "UnknownChannelType" "unknown channel type"].
Proof.
  refine (proj2 (handleConn_rejects_other_channels quietExt _ _)).
  repeat constructor; discriminate.
Defined.
